(** * BasedGenerateTaskPipeline (src/ai_pipeline.py)

    A shallow embedding of the task pipeline base class: the error
    classifier [_handle_error] with its persistence side effect, the
    description function [_error_to_desc], the two stream responses, the
    one-shot output moderation and the two enrichment hooks.

    Conventions of the embedding.
    - A Python [str] is a [string]; the literals of the file are ASCII, so
      substring tests on the UTF-8 bytes agree with tests on code points.
    - An exception object is the record [PyExc] of what the file observes of
      it: the four [isinstance] tests, [e.args], the [description]
      attribute and [str(e)].  The declarations of the exception classes
      live in other modules of the application; no relation between the
      four tests is assumed.
    - [db.session] is the record [Db]: the rows as the session sees them,
      the rows made durable by the last commit, and the log of calls.
      [query_first] and [commit] are the two calls when the database
      answers; [Fallible] has them as calls that can raise, and the
      [_handle_error] that runs on those.
    - Code that can raise runs in the monad [M] (state [Db], result
      [Outcome]).
    - Calls to [logger] do not influence any result and are left out. *)

From Stdlib Require Import String Ascii List Bool Arith Lia.
From stdpp Require Import gmap strings fin_maps.

Import ListNotations.
Local Open Scope string_scope.

(** ** Python strings *)

Module PyStr.

(** [s.startswith(p)] *)
Fixpoint startswith (p s : string) : bool :=
  match p, s with
  | EmptyString, _ => true
  | String _ _, EmptyString => false
  | String a p', String b s' => Ascii.eqb a b && startswith p' s'
  end.

(** [p in s] *)
Fixpoint contains (p s : string) : bool :=
  startswith p s ||
  match s with
  | EmptyString => false
  | String _ s' => contains p s'
  end.

(** Number of positions of [s] at which [p] occurs. *)
Fixpoint occurrences (p s : string) : nat :=
  (if startswith p s then 1 else 0) +
  match s with
  | EmptyString => 0
  | String _ s' => occurrences p s'
  end.

(** [c in s] for a single character. *)
Fixpoint has_char (c : ascii) (s : string) : bool :=
  match s with
  | EmptyString => false
  | String a s' => Ascii.eqb a c || has_char c s'
  end.

(** Truthiness of a string: [bool(s)]. *)
Definition truthy (s : string) : bool :=
  match s with
  | EmptyString => false
  | String _ _ => true
  end.

Definition newline : ascii := "010"%char.

End PyStr.

(** ** Exceptions *)

(** The result of looking up an attribute typed [Optional[str]] on an
    object: the attribute is missing, holds [None], or holds a string. *)
Inductive attr : Type :=
  | Absent
  | IsNone
  | Str (s : string).

Record PyExc : Type := mkPyExc {
  is_InvokeAuthorizationError : bool;  (* isinstance(e, InvokeAuthorizationError) *)
  is_InvokeError : bool;               (* isinstance(e, InvokeError) *)
  is_ValueError : bool;                (* isinstance(e, ValueError) *)
  is_QuotaExceededError : bool;        (* isinstance(e, QuotaExceededError) *)
  exc_args : list string;              (* e.args *)
  description : attr;                  (* the attribute e.description *)
  str : string                         (* str(e) *)
}.

(** The builtin [Exception(msg)]: an instance of none of the four classes,
    without a [description] attribute, printing as its argument. *)
Definition Exception (msg : string) : PyExc :=
  {| is_InvokeAuthorizationError := false;
     is_InvokeError := false;
     is_ValueError := false;
     is_QuotaExceededError := false;
     exc_args := [msg];
     description := Absent;
     str := msg |}.

(** The builtin [AttributeError] raised by [None.<name> = v]. *)
Definition AttributeError_NoneType (name : string) : PyExc :=
  let msg := "'NoneType' object has no attribute '" +:+ name +:+ "'" in
  {| is_InvokeAuthorizationError := false;
     is_InvokeError := false;
     is_ValueError := false;
     is_QuotaExceededError := false;
     exc_args := [msg];
     description := Absent;
     str := msg |}.

(** [getattr(e, 'description', default)] *)
Definition getattr_description (e : PyExc) (default : attr) : attr :=
  match description e with
  | Absent => default
  | a => a
  end.

Definition quota_message : string :=
  "Your quota for Dify Hosted Model Provider has been exhausted. " +:+
  "Please go to Settings -> Model Provider to complete your own provider credentials.".

Definition support_message : string :=
  "Internal Server Error, please contact support.".

(** [_error_to_desc], lines 75-90. *)
Definition _error_to_desc (e : PyExc) : string :=
  if is_QuotaExceededError e then quota_message
  else
    match getattr_description e (Str (str e)) with
    | Str message => if PyStr.truthy message then message else support_message
    | IsNone | Absent => support_message
    end.

(** ** Entities *)

Record QueueErrorEvent : Type := mkQueueErrorEvent { error : PyExc }.

Record Message : Type := mkMessage {
  message_id : string;
  message_status : string;
  message_error : option string
}.

(** The columns of a row of the message table other than its key. *)
Record MessageRow : Type := mkRow {
  row_status : string;
  row_error : option string
}.

Definition row_object (id : string) (r : MessageRow) : Message :=
  {| message_id := id; message_status := row_status r; message_error := row_error r |}.

(** ** The database session *)

Inductive DbCall : Type :=
  | QueryFirst (id : string)
  | SetStatus (id : string) (v : string)
  | SetError (id : string) (v : string)
  | Commit.

Record Db : Type := mkDb {
  session : gmap string MessageRow;    (* rows as db.session sees them *)
  committed : gmap string MessageRow;  (* rows made durable by a commit *)
  calls : list DbCall                  (* persistence calls, oldest first *)
}.

Inductive Outcome (A : Type) : Type :=
  | Returned (a : A)
  | Raised (exn : PyExc).
Arguments Returned {A} a.
Arguments Raised {A} exn.

Definition M (A : Type) : Type := Db -> Outcome A * Db.

Definition ret {A} (a : A) : M A := fun d => (Returned a, d).

Definition raise {A} (exn : PyExc) : M A := fun d => (Raised exn, d).

Definition bind {A B} (m : M A) (k : A -> M B) : M B :=
  fun d =>
    match m d with
    | (Returned a, d') => k a d'
    | (Raised exn, d') => (Raised exn, d')
    end.

Notation "x <~ m ;; k" := (bind m (fun x => k))
  (at level 100, m at next level, right associativity).
Notation "m ;;; k" := (bind m (fun _ => k))
  (at level 100, right associativity).

Definition log_call (c : DbCall) (d : Db) : Db :=
  {| session := session d; committed := committed d; calls := calls d ++ [c] |}.

(** [db.session.query(Message).filter(Message.id == id).first()] *)
Definition query_first (id : string) : M (option Message) :=
  fun d => (Returned (row_object id <$> session d !! id), log_call (QueryFirst id) d).

(** [message.status = v]; on [None] the assignment raises. *)
Definition set_status (message : option Message) (v : string) : M unit :=
  match message with
  | None => raise (AttributeError_NoneType "status")
  | Some m =>
      fun d =>
        let d' := log_call (SetStatus (message_id m) v) d in
        (Returned tt,
         {| session := alter (fun r => {| row_status := v; row_error := row_error r |})
                             (message_id m) (session d');
            committed := committed d';
            calls := calls d' |})
  end.

(** [message.error = v]; on [None] the assignment raises. *)
Definition set_error (message : option Message) (v : string) : M unit :=
  match message with
  | None => raise (AttributeError_NoneType "error")
  | Some m =>
      fun d =>
        let d' := log_call (SetError (message_id m) v) d in
        (Returned tt,
         {| session := alter (fun r => {| row_status := row_status r; row_error := Some v |})
                             (message_id m) (session d');
            committed := committed d';
            calls := calls d' |})
  end.

(** [db.session.commit()] *)
Definition commit : M unit :=
  fun d =>
    let d' := log_call Commit d in
    (Returned tt, {| session := session d'; committed := session d'; calls := calls d' |}).

(** ** The pipeline *)

Section Pipeline.

(** Collaborators defined in other modules of the application. *)
Context {AppQueueManager User ModerationConfig Time : Type}.

(** The constructor of the class [InvokeAuthorizationError]. *)
Variable InvokeAuthorizationError : string -> PyExc.

Record SensitiveWordAvoidance : Type := mkSensitiveWordAvoidance {
  swa_type : string;
  swa_config : ModerationConfig
}.

Record AppConfig : Type := mkAppConfig {
  tenant_id : string;
  app_id : string;
  sensitive_word_avoidance : option SensitiveWordAvoidance
}.

Record AppGenerateEntity : Type := mkAppGenerateEntity {
  task_id : string;
  app_config : AppConfig
}.

Record ModerationRule : Type := mkModerationRule {
  rule_type : string;
  rule_config : ModerationConfig
}.

Record OutputModeration : Type := mkOutputModeration {
  om_tenant_id : string;
  om_app_id : string;
  om_rule : ModerationRule;
  om_queue_manager : AppQueueManager
}.

(** [OutputModeration.moderation_completion(completion, public_event)] *)
Variable moderation_completion : OutputModeration -> string -> bool -> string.

Record ErrorStreamResponse : Type := mkErrorStreamResponse {
  esr_task_id : string;
  esr_err : PyExc
}.

Record PingStreamResponse : Type := mkPingStreamResponse {
  psr_task_id : string
}.

(** The attributes of [self]. *)
Record Pipeline : Type := mkPipeline {
  _application_generate_entity : AppGenerateEntity;
  _queue_manager : AppQueueManager;
  _user : User;
  _start_at : Time;
  _output_moderation_handler : option OutputModeration;
  _stream : bool
}.

(** [_init_output_moderation], lines 110-127, on the two attributes it
    reads. *)
Definition _init_output_moderation
    (application_generate_entity : AppGenerateEntity)
    (queue_manager : AppQueueManager) : option OutputModeration :=
  let app_config := app_config application_generate_entity in
  match sensitive_word_avoidance app_config with
  | Some swa =>
      Some {| om_tenant_id := tenant_id app_config;
              om_app_id := app_id app_config;
              om_rule := {| rule_type := swa_type swa; rule_config := swa_config swa |};
              om_queue_manager := queue_manager |}
  | None => None
  end.

(** [__init__], lines 27-45; [now] is the reading of
    [time.perf_counter()]. *)
Definition __init__ (application_generate_entity : AppGenerateEntity)
    (queue_manager : AppQueueManager) (user : User) (stream : bool)
    (now : Time) : Pipeline :=
  {| _application_generate_entity := application_generate_entity;
     _queue_manager := queue_manager;
     _user := user;
     _start_at := now;
     _output_moderation_handler :=
       _init_output_moderation application_generate_entity queue_manager;
     _stream := stream |}.

(** The classification of lines 57-62. *)
Definition classify (e : PyExc) : PyExc :=
  if is_InvokeAuthorizationError e then
    InvokeAuthorizationError "Incorrect API key provided"
  else if is_InvokeError e || is_ValueError e then e
  else
    Exception (match description e with
               | Str d => d
               | IsNone | Absent => str e
               end).

(** [_handle_error], lines 47-73. *)
Definition _handle_error (event : QueueErrorEvent) (message : option Message)
    : M PyExc :=
  let e := error event in
  let err := classify e in
  match message with
  | Some m =>
      message <~ query_first (message_id m) ;;
      let err_desc := _error_to_desc err in
      set_status message "error" ;;;
      set_error message err_desc ;;;
      commit ;;;
      ret err
  | None => ret err
  end.

(** [_error_to_stream_response], lines 92-101. *)
Definition _error_to_stream_response (self : Pipeline) (e : PyExc)
    : ErrorStreamResponse :=
  {| esr_task_id := task_id (_application_generate_entity self); esr_err := e |}.

(** [_ping_stream_response], lines 103-108. *)
Definition _ping_stream_response (self : Pipeline) : PingStreamResponse :=
  {| psr_task_id := task_id (_application_generate_entity self) |}.

(** Calls made on the moderation handler. *)
Inductive ModerationCall : Type :=
  | StopThread (h : OutputModeration)
  | ModerationCompletion (h : OutputModeration) (completion : string)
                         (public_event : bool).

Definition set_output_moderation_handler (self : Pipeline)
    (h : option OutputModeration) : Pipeline :=
  {| _application_generate_entity := _application_generate_entity self;
     _queue_manager := _queue_manager self;
     _user := _user self;
     _start_at := _start_at self;
     _output_moderation_handler := h;
     _stream := _stream self |}.

(** [_handle_output_moderation_when_task_finished], lines 129-147: the
    returned value, [self] afterwards, and the calls made on the handler
    in order. *)
Definition _handle_output_moderation_when_task_finished (self : Pipeline)
    (completion : string) : option string * Pipeline * list ModerationCall :=
  match _output_moderation_handler self with
  | Some h =>
      let completion' := moderation_completion h completion false in
      (Some completion',
       set_output_moderation_handler self None,
       [StopThread h; ModerationCompletion h completion false])
  | None => (None, self, [])
  end.

Definition anomaly_note : string := "Suspicious content detected in the output.".

(** [_detect_anomalies], lines 149-166. *)
Definition _detect_anomalies (output : string) : option string :=
  let anomaly_description :=
    if PyStr.contains "suspicious" output then Some anomaly_note else None in
  match anomaly_description with
  | Some d => if PyStr.truthy d then Some d else None
  | None => None
  end.

(** [_enrich_response], lines 168-178. *)
Definition _enrich_response (output : string) : string :=
  match _detect_anomalies output with
  | Some d =>
      if PyStr.truthy d
      then output +:+ String PyStr.newline "Note: " +:+ d
      else output
  | None => output
  end.

(** *** The pipeline driven by its caller

    The caller owns the pipeline object, the database session and the
    moderation subsystem, and invokes the methods in any order. *)

Record World : Type := mkWorld {
  self : Pipeline;
  db : Db;
  moderation_calls : list ModerationCall
}.

Inductive Op : Type :=
  | HandleError (event : QueueErrorEvent) (message : option Message)
  | ErrorToStreamResponse (e : PyExc)
  | Ping
  | TaskFinished (completion : string)
  | DetectAnomalies (output : string)
  | EnrichResponse (output : string).

Inductive Result : Type :=
  | RHandled (o : Outcome PyExc)
  | RError (r : ErrorStreamResponse)
  | RPing (r : PingStreamResponse)
  | RModerated (o : option string)
  | RAnomaly (o : option string)
  | REnriched (s : string).

Definition step (w : World) (op : Op) : World * Result :=
  match op with
  | HandleError event message =>
      let '(o, d) := _handle_error event message (db w) in
      ({| self := self w; db := d; moderation_calls := moderation_calls w |},
       RHandled o)
  | ErrorToStreamResponse e => (w, RError (_error_to_stream_response (self w) e))
  | Ping => (w, RPing (_ping_stream_response (self w)))
  | TaskFinished completion =>
      let '(o, self', cs) :=
        _handle_output_moderation_when_task_finished (self w) completion in
      ({| self := self'; db := db w;
          moderation_calls := moderation_calls w ++ cs |},
       RModerated o)
  | DetectAnomalies output => (w, RAnomaly (_detect_anomalies output))
  | EnrichResponse output => (w, REnriched (_enrich_response output))
  end.

Fixpoint run (w : World) (ops : list Op) : World * list Result :=
  match ops with
  | [] => (w, [])
  | op :: ops' =>
      let '(w1, r) := step w op in
      let '(w2, rs) := run w1 ops' in
      (w2, r :: rs)
  end.

(** The task identifier carried by a stream response. *)
Definition response_task_id (r : Result) : option string :=
  match r with
  | RError r => Some (esr_task_id r)
  | RPing r => Some (psr_task_id r)
  | _ => None
  end.

Definition is_moderation_completion (c : ModerationCall) : bool :=
  match c with
  | ModerationCompletion _ _ _ => true
  | StopThread _ => false
  end.

(** Number of texts the moderation handler has been asked to moderate. *)
Definition moderated (w : World) : nat :=
  length (List.filter is_moderation_completion (moderation_calls w)).

(** While the handler is present nothing has been moderated; once it is
    discarded at most one text has been. *)
Definition one_shot (w : World) : Prop :=
  match _output_moderation_handler (self w) with
  | Some _ => moderated w = 0
  | None => moderated w <= 1
  end.

End Pipeline.

(** Whether the re-fetch of line 65 finds the record of the message
    reference, when one is given. *)
Definition refetch_finds (message : option Message) (d : Db) : bool :=
  match message with
  | None => true
  | Some m => bool_decide (is_Some (session d !! message_id m))
  end.

(** ** Persistence calls that can raise

    The query and the commit reach the database and can raise (a lost
    connection, a locked table, a failed flush).  [Faults] says what each
    of the two raises, if anything, during one call of [_handle_error].  A
    commit that raises makes nothing durable and leaves in the session
    what was assigned before it. *)

Module Fallible.

Record Faults : Type := mkFaults {
  query_fault : option PyExc;   (* what query(...).first() raises, if anything *)
  commit_fault : option PyExc   (* what commit() raises, if anything *)
}.

Definition no_faults : Faults := {| query_fault := None; commit_fault := None |}.

(** [db.session.query(Message).filter(Message.id == id).first()] *)
Definition query_first (f : Faults) (id : string) : M (option Message) :=
  fun d =>
    match query_fault f with
    | Some exn => (Raised exn, log_call (QueryFirst id) d)
    | None =>
        (Returned (row_object id <$> session d !! id), log_call (QueryFirst id) d)
    end.

(** [db.session.commit()] *)
Definition commit (f : Faults) : M unit :=
  fun d =>
    let d' := log_call Commit d in
    match commit_fault f with
    | Some exn => (Raised exn, d')
    | None =>
        (Returned tt,
         {| session := session d'; committed := session d'; calls := calls d' |})
    end.

Section Classes.

Variable InvokeAuthorizationError : string -> PyExc.

(** [_handle_error], lines 47-73, on the calls that can raise. *)
Definition _handle_error (f : Faults) (event : QueueErrorEvent)
    (message : option Message) : M PyExc :=
  let e := error event in
  let err := classify InvokeAuthorizationError e in
  match message with
  | Some m =>
      message <~ query_first f (message_id m) ;;
      let err_desc := _error_to_desc err in
      set_status message "error" ;;;
      set_error message err_desc ;;;
      commit f ;;;
      ret err
  | None => ret err
  end.

End Classes.

(** Whether every step of the call goes through: no message reference,
    or the query answers, finds the record, and the commit succeeds. *)
Definition goes_through (f : Faults) (message : option Message) (d : Db) : bool :=
  match message with
  | None => true
  | Some m =>
      match query_fault f, session d !! message_id m, commit_fault f with
      | None, Some _, None => true
      | _, _, _ => false
      end
  end.

End Fallible.

(** ** Sample inputs *)

Module Sample.

(** A declaration of [InvokeAuthorizationError] in the usual style of
    such classes: a subclass of [InvokeError] whose constructor stores
    its argument as [description] and prints it (or the class name). *)
Definition InvokeAuthorizationError (msg : string) : PyExc :=
  {| is_InvokeAuthorizationError := true;
     is_InvokeError := true;
     is_ValueError := false;
     is_QuotaExceededError := false;
     exc_args := [msg];
     description := Str msg;
     str := if PyStr.truthy msg then msg else "InvokeAuthorizationError" |}.

(** An authorization failure as a provider reports it. *)
Definition auth_error : PyExc := InvokeAuthorizationError "401 Unauthorized".

(** A quota failure declared as a direct subclass of [Exception] with
    the class attribute [description = "Quota Exceeded"]. *)
Definition quota_error : PyExc :=
  {| is_InvokeAuthorizationError := false;
     is_InvokeError := false;
     is_ValueError := false;
     is_QuotaExceededError := true;
     exc_args := [];
     description := Str "Quota Exceeded";
     str := "" |}.

(** A quota failure declared as a subclass of [ValueError]. *)
Definition quota_value_error : PyExc :=
  {| is_InvokeAuthorizationError := false;
     is_InvokeError := false;
     is_ValueError := true;
     is_QuotaExceededError := true;
     exc_args := [];
     description := Str "Quota Exceeded";
     str := "" |}.

(** [ValueError("bad input")] *)
Definition value_error : PyExc :=
  {| is_InvokeAuthorizationError := false;
     is_InvokeError := false;
     is_ValueError := true;
     is_QuotaExceededError := false;
     exc_args := ["bad input"];
     description := Absent;
     str := "bad input" |}.

(** [KeyError()] : no description, empty string form. *)
Definition bare_error : PyExc :=
  {| is_InvokeAuthorizationError := false;
     is_InvokeError := false;
     is_ValueError := false;
     is_QuotaExceededError := false;
     exc_args := [];
     description := Absent;
     str := "" |}.

Definition message : Message :=
  {| message_id := "m1"; message_status := "normal"; message_error := None |}.

Definition row : MessageRow := {| row_status := "normal"; row_error := None |}.

(** A session that holds the record of [message]. *)
Definition db_with_message : Db :=
  {| session := {[ "m1" := row ]}; committed := {[ "m1" := row ]}; calls := [] |}.

(** A session from which the record of [message] has been deleted. *)
Definition db_without_message : Db :=
  {| session := ∅; committed := ∅; calls := [] |}.

Definition moderation_completion {Q C : Type}
    (h : @OutputModeration Q C) (completion : string) (public_event : bool)
    : string :=
  "[moderated] " +:+ completion.

Definition entity (swa : option (@SensitiveWordAvoidance unit)) : AppGenerateEntity :=
  {| task_id := "task-1";
     app_config := {| tenant_id := "tenant"; app_id := "app";
                      sensitive_word_avoidance := swa |} |}.

Definition keywords : @SensitiveWordAvoidance unit :=
  {| swa_type := "keywords"; swa_config := tt |}.

(** The output of enriching ["suspicious"] once. *)
Definition enriched_once : string := _enrich_response "suspicious".

End Sample.

(** ** Sequences of operations *)

(** The completion of the first [TaskFinished] of a sequence. *)
Fixpoint first_task_finished (ops : list Op) : option string :=
  match ops with
  | [] => None
  | TaskFinished completion :: _ => Some completion
  | _ :: ops' => first_task_finished ops'
  end.

(** Whether an operation hands the record [id] to [_handle_error]. *)
Definition refers_to (id : string) (op : Op) : bool :=
  match op with
  | HandleError _ (Some m) => bool_decide (message_id m = id)
  | _ => false
  end.

(** The row [_handle_error] leaves for a failure described by [desc]. *)
Definition error_row (desc : string) : MessageRow :=
  {| row_status := "error"; row_error := Some desc |}.

Module MoreSamples.

(** An [InvokeError] built without arguments: the [description]
    attribute is there and holds [None]. *)
Definition invoke_error_none : PyExc :=
  {| is_InvokeAuthorizationError := false;
     is_InvokeError := true;
     is_ValueError := false;
     is_QuotaExceededError := false;
     exc_args := [];
     description := IsNone;
     str := "InvokeError" |}.

(** A failure of some other class whose [description] holds [None]. *)
Definition none_description_error : PyExc :=
  {| is_InvokeAuthorizationError := false;
     is_InvokeError := false;
     is_ValueError := false;
     is_QuotaExceededError := false;
     exc_args := ["connection reset"];
     description := IsNone;
     str := "connection reset" |}.

(** [RuntimeError("boom")] *)
Definition runtime_error : PyExc :=
  {| is_InvokeAuthorizationError := false;
     is_InvokeError := false;
     is_ValueError := false;
     is_QuotaExceededError := false;
     exc_args := ["boom"];
     description := Absent;
     str := "boom" |}.

Definition other_row : MessageRow :=
  {| row_status := "normal"; row_error := None |}.

(** A session with two records, without pending changes. *)
Definition db_two_messages : Db :=
  {| session := {[ "m1" := Sample.row; "m2" := other_row ]};
     committed := {[ "m1" := Sample.row; "m2" := other_row ]};
     calls := [] |}.

(** A session whose record ["m1"] was marked by an earlier failure. *)
Definition db_errored : Db :=
  {| session := {[ "m1" := error_row "boom" ]};
     committed := {[ "m1" := error_row "boom" ]};
     calls := [] |}.

(** A session with a pending change to ["m1"]. *)
Definition db_pending : Db :=
  {| session := {[ "m1" := error_row "boom" ]};
     committed := {[ "m1" := Sample.row ]};
     calls := [] |}.

Definition operations : list Op :=
  [Ping;
   TaskFinished "first";
   HandleError (mkQueueErrorEvent Sample.value_error) (Some Sample.message);
   EnrichResponse "a suspicious answer";
   TaskFinished "second"].

Definition handler : @OutputModeration unit unit :=
  {| om_tenant_id := "tenant"; om_app_id := "app";
     om_rule := {| rule_type := "keywords"; rule_config := tt |};
     om_queue_manager := tt |}.

Definition pipeline : @Pipeline unit unit unit unit :=
  __init__ (Sample.entity (Some Sample.keywords)) tt tt true tt.

Definition world (d : Db) : World :=
  {| self := pipeline; db := d; moderation_calls := [] |}.

End MoreSamples.

Module FaultSamples.

(** [sqlalchemy.exc.OperationalError], as raised on a lost connection. *)
Definition operational_error : PyExc :=
  {| is_InvokeAuthorizationError := false;
     is_InvokeError := false;
     is_ValueError := false;
     is_QuotaExceededError := false;
     exc_args := ["server closed the connection unexpectedly"];
     description := Absent;
     str := "server closed the connection unexpectedly" |}.

Definition commit_fails : Fallible.Faults :=
  {| Fallible.query_fault := None;
     Fallible.commit_fault := Some operational_error |}.

Definition query_fails : Fallible.Faults :=
  {| Fallible.query_fault := Some operational_error;
     Fallible.commit_fault := None |}.

End FaultSamples.

(** ** Properties of Python strings *)

Section StringFacts.

Import PyStr.

Lemma startswith_refl (p : string) : startswith p p = true.
Proof.
  induction p as [|a p IH]; simpl; [reflexivity|].
  rewrite Ascii.eqb_refl. exact IH.
Qed.

Lemma startswith_app (p s : string) : startswith p (p +:+ s) = true.
Proof.
  induction p as [|a p IH]; simpl; [reflexivity|].
  rewrite Ascii.eqb_refl. exact IH.
Qed.

(** A pattern without the character [c] cannot match across a [c]:
    whether it matches at the head of [s ++ c :: t] is decided inside
    [s]. *)
Lemma startswith_barrier (c : ascii) (t p s : string) :
  has_char c p = false ->
  startswith p (s +:+ String c t) = startswith p s.
Proof.
  revert s. induction p as [|a p IH]; intros s Hc; [reflexivity|].
  simpl in Hc. apply orb_false_iff in Hc as [Hac Hp].
  destruct s as [|b s]; simpl.
  - rewrite Hac. reflexivity.
  - rewrite (IH s Hp). reflexivity.
Qed.

Lemma occurrences_barrier (c : ascii) (t p s : string) :
  truthy p = true ->
  has_char c p = false ->
  occurrences p (s +:+ String c t) = occurrences p s + occurrences p (String c t).
Proof.
  intros Hne Hc. remember (occurrences p (String c t)) as k eqn:Hk.
  induction s as [|b s IH].
  - rewrite Hk. destruct p; [discriminate Hne|]. reflexivity.
  - change (String b s +:+ String c t) with (String b (s +:+ String c t)).
    cbn [occurrences]. rewrite IH.
    rewrite <- (startswith_barrier c t p (String b s) Hc).
    change (String b s +:+ String c t) with (String b (s +:+ String c t)).
    lia.
Qed.

Lemma contains_occurrences (p s : string) :
  contains p s = true <-> 0 < occurrences p s.
Proof.
  induction s as [|b s IH]; simpl.
  - destruct (startswith p ""); simpl; split; intros; try lia; congruence.
  - destruct (startswith p (String b s)); simpl.
    + split; intros; [lia | reflexivity].
    + exact IH.
Qed.

Lemma truthy_nonempty (s : string) : truthy s = true <-> s <> "".
Proof. destruct s; simpl; split; intros; congruence. Qed.

End StringFacts.

(** ** Properties of the description function *)

Lemma quota_message_truthy : PyStr.truthy quota_message = true.
Proof. reflexivity. Qed.

Lemma support_message_truthy : PyStr.truthy support_message = true.
Proof. reflexivity. Qed.

Lemma error_to_desc_truthy (e : PyExc) : PyStr.truthy (_error_to_desc e) = true.
Proof.
  unfold _error_to_desc, getattr_description.
  destruct (is_QuotaExceededError e); [reflexivity|].
  destruct (description e) as [| |s].
  - destruct (PyStr.truthy (str e)) eqn:E; [exact E | reflexivity].
  - reflexivity.
  - destruct (PyStr.truthy s) eqn:E; [exact E | reflexivity].
Qed.

(** C8. A failure that is not a quota failure, has no [description]
    attribute and prints as the empty string is described by the fixed
    support message. *)
Theorem error_to_desc_fallback (e : PyExc) :
  is_QuotaExceededError e = false ->
  description e = Absent ->
  str e = "" ->
  _error_to_desc e = "Internal Server Error, please contact support.".
Proof.
  intros Hq Hd Hs. unfold _error_to_desc, getattr_description.
  rewrite Hq, Hd, Hs. reflexivity.
Qed.

(** C10. [_error_to_desc] never returns the empty string; in particular,
    when the failure is not a quota failure and the description read from
    it (the attribute, else the string form) is empty or [None], the
    support message is returned in its place. *)
Theorem error_to_desc_nonempty (e : PyExc) :
  _error_to_desc e <> "" /\
  (is_QuotaExceededError e = false ->
   getattr_description e (Str (str e)) = Str "" \/
   getattr_description e (Str (str e)) = IsNone ->
   _error_to_desc e = support_message).
Proof.
  split.
  - apply truthy_nonempty, error_to_desc_truthy.
  - intros Hq Hd. unfold _error_to_desc. rewrite Hq.
    destruct Hd as [-> | ->]; reflexivity.
Qed.

(** ** Properties of the pipeline *)

Section Properties.

Context {AppQueueManager User ModerationConfig Time : Type}.

Variable InvokeAuthorizationError : string -> PyExc.
Variable moderation_completion :
  @OutputModeration AppQueueManager ModerationConfig -> string -> bool -> string.

(** What Python guarantees of an object built by a class: it is an
    instance of the class, and [args] holds the constructor's arguments. *)
Hypothesis InvokeAuthorizationError_isinstance :
  forall msg, is_InvokeAuthorizationError (InvokeAuthorizationError msg) = true.
Hypothesis InvokeAuthorizationError_args :
  forall msg, exc_args (InvokeAuthorizationError msg) = [msg].

Abbreviation handle_error := (_handle_error InvokeAuthorizationError).
Abbreviation classified e := (classify InvokeAuthorizationError e).

(** *** The three paths of [_handle_error] *)

Lemma handle_error_no_message (event : QueueErrorEvent) (d : Db) :
  handle_error event None d = (Returned (classified (error event)), d).
Proof. reflexivity. Qed.

Lemma handle_error_found (event : QueueErrorEvent) (m : Message) (d : Db)
    (r : MessageRow) :
  session d !! message_id m = Some r ->
  exists d',
    handle_error event (Some m) d = (Returned (classified (error event)), d') /\
    committed d' !! message_id m =
      Some {| row_status := "error";
              row_error := Some (_error_to_desc (classified (error event))) |} /\
    session d' = committed d' /\
    (forall id, id <> message_id m -> committed d' !! id = session d !! id) /\
    calls d' = (calls d ++
      [QueryFirst (message_id m);
       SetStatus (message_id m) "error";
       SetError (message_id m) (_error_to_desc (classified (error event)));
       Commit])%list.
Proof.
  intros Hr. unfold _handle_error, bind, query_first. simpl. rewrite Hr. simpl.
  eexists. split; [reflexivity|]. simpl. repeat split.
  - rewrite !lookup_alter_eq, Hr. reflexivity.
  - intros id Hid. rewrite !lookup_alter_ne by congruence. reflexivity.
  - rewrite <- !app_assoc. reflexivity.
Qed.

Lemma handle_error_not_found (event : QueueErrorEvent) (m : Message) (d : Db) :
  session d !! message_id m = None ->
  handle_error event (Some m) d =
    (Raised (AttributeError_NoneType "status"),
     log_call (QueryFirst (message_id m)) d).
Proof.
  intros Hr. unfold _handle_error, bind, query_first. simpl. rewrite Hr.
  reflexivity.
Qed.

Lemma handle_error_returns (event : QueueErrorEvent) (message : option Message)
    (d : Db) :
  refetch_finds message d = true ->
  exists d', handle_error event message d = (Returned (classified (error event)), d').
Proof.
  destruct message as [m|]; simpl; intros Hf.
  - apply bool_decide_eq_true in Hf as [r Hr].
    destruct (handle_error_found event m d r Hr) as (d' & H & _).
    exists d'. exact H.
  - exists d. reflexivity.
Qed.

(** *** Classification *)

(** C6. An authorization failure is replaced by a new authorization
    failure built from the fixed string, whatever the original failure
    carried: [_handle_error] returns it whenever the re-fetch of the
    message reference (if one is given) finds its record. *)
Theorem handle_error_authorization (event : QueueErrorEvent)
    (message : option Message) (d : Db) :
  is_InvokeAuthorizationError (error event) = true ->
  refetch_finds message d = true ->
  exists err d',
    handle_error event message d = (Returned err, d') /\
    err = InvokeAuthorizationError "Incorrect API key provided" /\
    is_InvokeAuthorizationError err = true /\
    exc_args err = ["Incorrect API key provided"].
Proof.
  intros Ha Hf.
  destruct (handle_error_returns event message d Hf) as [d' Hd'].
  exists (InvokeAuthorizationError "Incorrect API key provided"), d'.
  split; [|split; [reflexivity|split]].
  - rewrite Hd'. unfold classify. rewrite Ha. reflexivity.
  - apply InvokeAuthorizationError_isinstance.
  - apply InvokeAuthorizationError_args.
Qed.

(** C7. Among the failures that are not authorization failures, an
    [InvokeError] or a [ValueError] is returned as the very same object,
    and any other failure is returned as a builtin [Exception] built from
    the original's [description] when that is a string, and from its
    string form otherwise; [_handle_error] returns whenever the re-fetch
    of the message reference (if one is given) finds its record. *)
Theorem handle_error_passthrough_or_generic (event : QueueErrorEvent)
    (message : option Message) (d : Db) :
  is_InvokeAuthorizationError (error event) = false ->
  refetch_finds message d = true ->
  exists err d',
    handle_error event message d = (Returned err, d') /\
    (if is_InvokeError (error event) || is_ValueError (error event)
     then err = error event
     else exists text,
            err = Exception text /\
            exc_args err = [text] /\ str err = text /\
            match description (error event) with
            | Str desc => text = desc
            | IsNone | Absent => text = str (error event)
            end).
Proof.
  intros Ha Hf.
  destruct (handle_error_returns event message d Hf) as [d' Hd'].
  exists (classified (error event)), d'. split; [exact Hd'|].
  unfold classify. rewrite Ha.
  destruct (is_InvokeError (error event) || is_ValueError (error event));
    [reflexivity|].
  eexists. split; [reflexivity|]. simpl.
  destruct (description (error event)); auto.
Qed.

(** *** Persistence *)


(** *** Output moderation *)

Abbreviation task_finished :=
  (@_handle_output_moderation_when_task_finished
     AppQueueManager User ModerationConfig Time moderation_completion).
Abbreviation run_pipeline :=
  (@run AppQueueManager User ModerationConfig Time
        InvokeAuthorizationError moderation_completion).
Abbreviation step_pipeline :=
  (@step AppQueueManager User ModerationConfig Time
         InvokeAuthorizationError moderation_completion).

Lemma task_finished_absent (p : Pipeline) (completion : string) :
  _output_moderation_handler p = None ->
  task_finished p completion = (None, p, []).
Proof.
  intros H. unfold _handle_output_moderation_when_task_finished. rewrite H.
  reflexivity.
Qed.

Lemma task_finished_present (p : Pipeline) (h : OutputModeration)
    (completion : string) :
  _output_moderation_handler p = Some h ->
  task_finished p completion =
    (Some (moderation_completion h completion false),
     set_output_moderation_handler p None,
     [StopThread h; ModerationCompletion h completion false]).
Proof.
  intros H. unfold _handle_output_moderation_when_task_finished. rewrite H.
  reflexivity.
Qed.

Lemma step_one_shot (w : World) (op : Op) :
  one_shot w -> one_shot (fst (step_pipeline w op)).
Proof.
  unfold one_shot, moderated. intros H. destruct op; simpl; try exact H.
  - destruct (_handle_error _ _ _ _) as [o d']. exact H.
  - unfold _handle_output_moderation_when_task_finished.
    destruct (_output_moderation_handler (self w)) as [h|] eqn:E; simpl.
    + rewrite List.filter_app, length_app, H. simpl. lia.
    + rewrite E, app_nil_r. exact H.
Qed.

Lemma run_one_shot (ops : list Op) (w : World) :
  one_shot w -> one_shot (fst (run_pipeline w ops)).
Proof.
  revert w. induction ops as [|op ops IH]; intros w H; [exact H|].
  simpl. pose proof (step_one_shot w op H) as H1.
  destruct (step_pipeline w op) as [w1 r].
  specialize (IH w1 H1). destruct (run_pipeline w1 ops) as [w2 rs].
  exact IH.
Qed.

(** C4. A pipeline built for an entity without sensitive-word avoidance
    has no handler: finishing the task returns [None], leaves the
    pipeline as it is and calls nothing of the moderation subsystem.
    Built for an entity with sensitive-word avoidance, it holds a handler
    bound to the tenant, the app, the rule and the queue manager; the
    first finish stops the handler's thread, then moderates the
    completion with [public_event=False], returns the moderated text and
    discards the handler; any later finish returns [None] and calls
    nothing.  Over any sequence of operations at most one text is
    moderated. *)
Theorem output_moderation_one_shot (entity : AppGenerateEntity)
    (queue_manager : AppQueueManager) (user : User) (stream : bool)
    (now : Time) (completion completion2 : string) (d : Db) (ops : list Op) :
  let p := __init__ entity queue_manager user stream now in
  match sensitive_word_avoidance (app_config entity) with
  | None =>
      task_finished p completion = (None, p, [])
  | Some swa =>
      let h := {| om_tenant_id := tenant_id (app_config entity);
                  om_app_id := app_id (app_config entity);
                  om_rule := {| rule_type := swa_type swa;
                                rule_config := swa_config swa |};
                  om_queue_manager := queue_manager |} in
      let p' := set_output_moderation_handler p None in
      _output_moderation_handler p = Some h /\
      task_finished p completion =
        (Some (moderation_completion h completion false), p',
         [StopThread h; ModerationCompletion h completion false]) /\
      _output_moderation_handler p' = None /\
      task_finished p' completion2 = (None, p', [])
  end /\
  moderated (fst (run_pipeline
                    {| self := p; db := d; moderation_calls := [] |} ops)) <= 1.
Proof.
  intros p. split.
  - subst p. unfold __init__, _init_output_moderation,
      _handle_output_moderation_when_task_finished. simpl.
    destruct (sensitive_word_avoidance (app_config entity)) as [swa|]; simpl;
      auto.
  - assert (H0 : one_shot {| self := p; db := d; moderation_calls := [] |}).
    { unfold one_shot, moderated. cbn [self moderation_calls].
      destruct (_output_moderation_handler p); simpl; lia. }
    apply (run_one_shot ops) in H0. unfold one_shot in H0.
    destruct (_output_moderation_handler _) in H0; lia.
Qed.

(** *** The task identifier *)

Lemma step_entity (w : World) (op : Op) :
  _application_generate_entity (self (fst (step_pipeline w op))) =
  _application_generate_entity (self w).
Proof.
  destruct op; simpl; try reflexivity.
  - destruct (_handle_error _ _ _ _) as [o d']. reflexivity.
  - unfold _handle_output_moderation_when_task_finished.
    destruct (_output_moderation_handler (self w)); reflexivity.
Qed.

Lemma step_response (w : World) (op : Op) :
  response_task_id (snd (step_pipeline w op)) = None \/
  response_task_id (snd (step_pipeline w op)) =
    Some (task_id (_application_generate_entity (self w))).
Proof.
  destruct op; simpl; auto.
  - destruct (_handle_error _ _ _ _) as [o d']. auto.
  - destruct (_handle_output_moderation_when_task_finished _ _ _)
      as [[o p'] cs]. auto.
Qed.

(** C9. No operation of the pipeline changes the generate entity, hence
    its [task_id]: after any sequence of operations the entity is the one
    the sequence started with, every stream response produced on the
    way carries its [task_id], and so does every error or ping response
    built afterwards. *)
Theorem task_id_immutable (w : World) (ops : list Op) :
  let tid := task_id (_application_generate_entity (self w)) in
  let w' := fst (run_pipeline w ops) in
  _application_generate_entity (self w') = _application_generate_entity (self w) /\
  Forall (fun r => response_task_id r = None \/ response_task_id r = Some tid)
         (snd (run_pipeline w ops)) /\
  (forall e, esr_task_id (_error_to_stream_response (self w') e) = tid) /\
  psr_task_id (_ping_stream_response (self w')) = tid.
Proof.
  cbv zeta.
  assert (H : _application_generate_entity (self (fst (run_pipeline w ops))) =
              _application_generate_entity (self w) /\
              Forall (fun r => response_task_id r = None \/
                               response_task_id r =
                                 Some (task_id (_application_generate_entity (self w))))
                     (snd (run_pipeline w ops))).
  { revert w. induction ops as [|op ops IH]; intros w; simpl.
    - split; [reflexivity | constructor].
    - pose proof (step_entity w op) as He.
      pose proof (step_response w op) as Hr.
      destruct (step_pipeline w op) as [w1 r]. simpl in He, Hr.
      destruct (IH w1) as [IH1 IH2].
      destruct (run_pipeline w1 ops) as [w2 rs]. simpl in *.
      rewrite He in IH1, IH2. split; [exact IH1|].
      constructor; assumption. }
  destruct H as [H1 H2]. repeat split; try assumption.
  - intros e. unfold _error_to_stream_response. simpl. rewrite H1. reflexivity.
  - unfold _ping_stream_response. simpl. rewrite H1. reflexivity.
Qed.

End Properties.

(** ** Enrichment *)

Lemma enrich_response_suspicious (output : string) :
  PyStr.contains "suspicious" output = true ->
  _enrich_response output =
    output +:+ String PyStr.newline ("Note: " +:+ anomaly_note).
Proof.
  intros H. unfold _enrich_response, _detect_anomalies. rewrite H. reflexivity.
Qed.

(** C3, as the code has it. For an input that contains ["suspicious"],
    [_enrich_response] returns the input followed by a line break,
    ["Note: "] and the anomaly note: the output contains the note, with
    exactly one occurrence more than the input, hence exactly once when the
    input does not contain the note already. *)
Theorem enrich_response_adds_one_note (output : string) :
  PyStr.contains "suspicious" output = true ->
  _enrich_response output =
    output +:+ String PyStr.newline ("Note: " +:+ anomaly_note) /\
  PyStr.contains anomaly_note (_enrich_response output) = true /\
  PyStr.occurrences anomaly_note (_enrich_response output) =
    S (PyStr.occurrences anomaly_note output) /\
  (PyStr.contains anomaly_note output = false ->
   PyStr.occurrences anomaly_note (_enrich_response output) = 1).
Proof.
  intros H. pose proof (enrich_response_suspicious output H) as E.
  assert (Hocc : PyStr.occurrences anomaly_note (_enrich_response output) =
                 S (PyStr.occurrences anomaly_note output)).
  { rewrite E, occurrences_barrier by reflexivity.
    replace (PyStr.occurrences anomaly_note
               (String PyStr.newline ("Note: " +:+ anomaly_note)))
      with 1 by reflexivity.
    lia. }
  repeat split.
  - exact E.
  - apply contains_occurrences. lia.
  - exact Hocc.
  - intros Hn. rewrite Hocc. f_equal.
    destruct (PyStr.occurrences anomaly_note output) eqn:E0; [reflexivity|].
    assert (Hc : PyStr.contains anomaly_note output = true)
      by (apply contains_occurrences; lia).
    congruence.
Qed.

(** ** The methods at sample inputs *)

Example error_to_desc_quota :
  _error_to_desc Sample.quota_error = quota_message.
Proof. reflexivity. Qed.

Example error_to_desc_description :
  _error_to_desc Sample.auth_error = "401 Unauthorized".
Proof. reflexivity. Qed.

Example error_to_desc_none_description :
  _error_to_desc
    {| is_InvokeAuthorizationError := false; is_InvokeError := true;
       is_ValueError := false; is_QuotaExceededError := false;
       exc_args := []; description := IsNone; str := "InvokeError" |}
  = support_message.
Proof. reflexivity. Qed.

Example classify_wraps_bare_error :
  classify Sample.InvokeAuthorizationError Sample.bare_error = Exception "".
Proof. reflexivity. Qed.

Example handle_error_log :
  calls (snd (_handle_error Sample.InvokeAuthorizationError
                (mkQueueErrorEvent Sample.value_error) (Some Sample.message)
                Sample.db_with_message))
  = [QueryFirst "m1"; SetStatus "m1" "error"; SetError "m1" "bad input"; Commit].
Proof. reflexivity. Qed.

Example detect_anomalies_is_case_sensitive :
  _detect_anomalies "a suspicious phrase" = Some anomaly_note /\
  _detect_anomalies "a Suspicious phrase" = None.
Proof. split; reflexivity. Qed.

Example enrich_response_clean : _enrich_response "all good" = "all good".
Proof. reflexivity. Qed.

Example init_without_avoidance :
  _output_moderation_handler
    (__init__ (Sample.entity None) tt tt true tt) = None.
Proof. reflexivity. Qed.

Example task_finished_twice :
  let p := __init__ (Sample.entity (Some Sample.keywords)) tt tt true tt in
  let '(first, p1, calls1) :=
    _handle_output_moderation_when_task_finished Sample.moderation_completion
      p "hello" in
  let '(second, p2, calls2) :=
    _handle_output_moderation_when_task_finished Sample.moderation_completion
      p1 "hello" in
  first = Some "[moderated] hello" /\ length calls1 = 2 /\
  second = None /\ calls2 = [] /\ p2 = p1.
Proof. cbv zeta. simpl. repeat split. Qed.

Example run_keeps_task_id :
  List.map response_task_id
    (snd (run Sample.InvokeAuthorizationError Sample.moderation_completion
            {| self := __init__ (Sample.entity (Some Sample.keywords)) tt tt true tt;
               db := Sample.db_without_message;
               moderation_calls := [] |}
            [Ping;
             HandleError (mkQueueErrorEvent Sample.auth_error) (Some Sample.message);
             TaskFinished "hello";
             ErrorToStreamResponse Sample.value_error]))
  = [Some "task-1"; None; None; Some "task-1"].
Proof. reflexivity. Qed.

(** ** The theorems at sample inputs *)

Lemma error_to_desc_fallback_witness :
  _error_to_desc Sample.bare_error = "Internal Server Error, please contact support.".
Proof. apply error_to_desc_fallback; reflexivity. Defined.

Lemma error_to_desc_nonempty_witness :
  _error_to_desc Sample.bare_error <> "" /\
  _error_to_desc Sample.bare_error = support_message.
Proof.
  destruct (error_to_desc_nonempty Sample.bare_error) as [H1 H2].
  split; [exact H1|]. apply H2; [reflexivity | left; reflexivity].
Defined.

Lemma handle_error_authorization_witness :
  exists err d',
    _handle_error Sample.InvokeAuthorizationError
      (mkQueueErrorEvent Sample.auth_error) (Some Sample.message)
      Sample.db_with_message = (Returned err, d') /\
    err = Sample.InvokeAuthorizationError "Incorrect API key provided" /\
    is_InvokeAuthorizationError err = true /\
    exc_args err = ["Incorrect API key provided"].
Proof.
  apply (handle_error_authorization Sample.InvokeAuthorizationError
           (fun _ => eq_refl) (fun _ => eq_refl)
           (mkQueueErrorEvent Sample.auth_error) (Some Sample.message)
           Sample.db_with_message); reflexivity.
Defined.

Lemma handle_error_passthrough_or_generic_witness :
  exists err d',
    _handle_error Sample.InvokeAuthorizationError
      (mkQueueErrorEvent Sample.value_error) (Some Sample.message)
      Sample.db_with_message = (Returned err, d') /\
    err = Sample.value_error.
Proof.
  apply (handle_error_passthrough_or_generic Sample.InvokeAuthorizationError
           (mkQueueErrorEvent Sample.value_error) (Some Sample.message)
           Sample.db_with_message); reflexivity.
Defined.


Lemma enrich_response_adds_one_note_witness :
  _enrich_response "suspicious" =
    "suspicious" +:+ String PyStr.newline ("Note: " +:+ anomaly_note) /\
  PyStr.contains anomaly_note (_enrich_response "suspicious") = true /\
  PyStr.occurrences anomaly_note (_enrich_response "suspicious") = 1 /\
  (PyStr.contains anomaly_note "suspicious" = false ->
   PyStr.occurrences anomaly_note (_enrich_response "suspicious") = 1).
Proof. apply (enrich_response_adds_one_note "suspicious"). reflexivity. Defined.

(** ** Inputs on which the stated properties fail *)

(** C1, at the failing input.  A [QuotaExceededError] declared as a direct
    subclass of [Exception], handled with a message reference whose record
    exists: described as it is, the failure gives the quota message; but
    [_handle_error] wraps it into a builtin [Exception] first and describes
    that, so the record is persisted with the failure's own text and not
    with the quota message. *)
Theorem handle_error_quota_description_lost :
  let call :=
    _handle_error Sample.InvokeAuthorizationError
      (mkQueueErrorEvent Sample.quota_error) (Some Sample.message)
      Sample.db_with_message in
  is_QuotaExceededError Sample.quota_error = true /\
  _error_to_desc Sample.quota_error = quota_message /\
  fst call = Returned (Exception "Quota Exceeded") /\
  committed (snd call) !! "m1" =
    Some {| row_status := "error"; row_error := Some "Quota Exceeded" |} /\
  description Sample.quota_error = Str "Quota Exceeded" /\
  "Quota Exceeded" <> quota_message.
Proof. cbv zeta. repeat split; try reflexivity. discriminate. Qed.

(** A message reference whose record is gone from the session: the
    re-fetch yields [None] and the assignment of [status] raises. *)
Lemma handle_error_returns_value_counterexample :
  let call :=
    _handle_error Sample.InvokeAuthorizationError
      (mkQueueErrorEvent Sample.value_error) (Some Sample.message)
      Sample.db_without_message in
  fst call = Raised (AttributeError_NoneType "status") /\
  forall err, fst call <> Returned err.
Proof. cbv zeta. split; [reflexivity | discriminate]. Qed.


(** Enriching an output that was enriched before: the input contains
    ["suspicious"], and the output contains the note twice. *)
Lemma enrich_response_adds_one_note_counterexample :
  Sample.enriched_once =
    "suspicious" +:+ String PyStr.newline "Note: Suspicious content detected in the output." /\
  PyStr.contains "suspicious" Sample.enriched_once = true /\
  PyStr.occurrences anomaly_note (_enrich_response Sample.enriched_once) = 2.
Proof. repeat split; reflexivity. Qed.

(** ** Further properties of the description function and the classifier *)

(** The description is never made up: it is the quota message for a quota
    failure, and otherwise the support message, the [description]
    attribute, or the string form of a failure without that attribute. *)
Theorem error_to_desc_range (e : PyExc) :
  (is_QuotaExceededError e = true /\ _error_to_desc e = quota_message) \/
  (is_QuotaExceededError e = false /\
   (_error_to_desc e = support_message \/
    description e = Str (_error_to_desc e) \/
    (description e = Absent /\ _error_to_desc e = str e))).
Proof.
  unfold _error_to_desc, getattr_description.
  destruct (is_QuotaExceededError e); [left; split; reflexivity | right].
  split; [reflexivity|].
  destruct (description e) as [| |s] eqn:Hd.
  - destruct (PyStr.truthy (str e)); [right; right; split; reflexivity | left; reflexivity].
  - left; reflexivity.
  - destruct (PyStr.truthy s); [right; left; reflexivity | left; reflexivity].
Qed.

Section Classifier.

Variable InvokeAuthorizationError : string -> PyExc.

Hypothesis InvokeAuthorizationError_isinstance :
  forall msg, is_InvokeAuthorizationError (InvokeAuthorizationError msg) = true.

Abbreviation classified e := (classify InvokeAuthorizationError e).

(** Classifying a classified failure changes nothing. *)
Theorem classify_idempotent (e : PyExc) :
  classified (classified e) = classified e.
Proof.
  unfold classify.
  destruct (is_InvokeAuthorizationError e) eqn:Ha.
  - rewrite InvokeAuthorizationError_isinstance. reflexivity.
  - destruct (is_InvokeError e || is_ValueError e) eqn:Hv.
    + rewrite Ha, Hv. reflexivity.
    + reflexivity.
Qed.

(** What classification keeps of the class of a failure: being an
    authorization failure is kept; for the others, being an [InvokeError]
    or a [ValueError] is kept, and being a quota failure is kept only by
    those that pass through. *)
Theorem classify_class_membership (e : PyExc) :
  is_InvokeAuthorizationError (classified e) = is_InvokeAuthorizationError e /\
  (is_InvokeAuthorizationError e = false ->
   is_InvokeError (classified e) = is_InvokeError e /\
   is_ValueError (classified e) = is_ValueError e /\
   is_QuotaExceededError (classified e) =
     is_QuotaExceededError e && (is_InvokeError e || is_ValueError e)).
Proof.
  unfold classify.
  destruct (is_InvokeAuthorizationError e) eqn:Ha.
  - split; [apply InvokeAuthorizationError_isinstance | discriminate].
  - split; [|intros _].
    + destruct (is_InvokeError e || is_ValueError e); [exact Ha | reflexivity].
    + destruct (is_InvokeError e || is_ValueError e) eqn:Hv.
      * rewrite andb_true_r. repeat split.
      * apply orb_false_iff in Hv as [Hi Hv]. rewrite Hi, Hv, andb_false_r.
        repeat split.
Qed.

(** Classification leaves the description of a failure as it is, for every
    failure that is no authorization failure and either passes through, or
    is no quota failure and has no [description] holding [None]. *)
Theorem error_to_desc_classify_agree (e : PyExc) :
  is_InvokeAuthorizationError e = false ->
  is_InvokeError e || is_ValueError e = true \/
  (is_QuotaExceededError e = false /\ description e <> IsNone) ->
  _error_to_desc (classified e) = _error_to_desc e.
Proof.
  intros Ha H. unfold classify. rewrite Ha.
  destruct (is_InvokeError e || is_ValueError e) eqn:Hv; [reflexivity|].
  destruct H as [H | [Hq Hd]]; [discriminate H|].
  unfold _error_to_desc, getattr_description. rewrite Hq. simpl.
  destruct (description e) as [| |s]; [reflexivity | congruence | reflexivity].
Qed.

(** A failure of no known class whose [description] holds [None]:
    described directly, [None] is taken and replaced by the support
    message; described after classification, its string form is taken. *)
Theorem error_to_desc_none_description_diverges (e : PyExc) :
  is_InvokeAuthorizationError e = false ->
  is_InvokeError e || is_ValueError e = false ->
  is_QuotaExceededError e = false ->
  description e = IsNone ->
  str e <> "" ->
  _error_to_desc e = support_message /\
  _error_to_desc (classified e) = str e.
Proof.
  intros Ha Hv Hq Hd Hs. split.
  - unfold _error_to_desc, getattr_description. rewrite Hq, Hd. reflexivity.
  - unfold classify. rewrite Ha, Hv, Hd.
    unfold _error_to_desc, getattr_description. simpl.
    apply truthy_nonempty in Hs. rewrite Hs. reflexivity.
Qed.

End Classifier.

(** ** Further properties of [_handle_error] *)

Section Persistence.

Variable InvokeAuthorizationError : string -> PyExc.

Abbreviation handle_error := (_handle_error InvokeAuthorizationError).
Abbreviation classified e := (classify InvokeAuthorizationError e).
Abbreviation described e := (_error_to_desc (classify InvokeAuthorizationError e)).

Lemma mark_row (rows : gmap string MessageRow) (id desc : string) (r : MessageRow) :
  rows !! id = Some r ->
  alter (fun r => {| row_status := row_status r; row_error := Some desc |}) id
    (alter (fun r => {| row_status := "error"; row_error := row_error r |}) id rows)
  = <[id := error_row desc]> rows.
Proof.
  intros Hr. apply map_eq. intros j. destruct (decide (id = j)) as [<-|Hne].
  - rewrite !lookup_alter_eq, lookup_insert_eq, Hr. reflexivity.
  - rewrite !lookup_alter_ne, lookup_insert_ne by assumption. reflexivity.
Qed.

(** The state a call leaves, path by path. *)
Lemma handle_error_state (event : QueueErrorEvent) (message : option Message)
    (d : Db) :
  snd (handle_error event message d) =
    match message with
    | None => d
    | Some m =>
        match session d !! message_id m with
        | None => log_call (QueryFirst (message_id m)) d
        | Some _ =>
            let rows := <[message_id m := error_row (described (error event))]>
                          (session d) in
            {| session := rows; committed := rows;
               calls := (calls d ++
                 [QueryFirst (message_id m);
                  SetStatus (message_id m) "error";
                  SetError (message_id m) (described (error event));
                  Commit])%list |}
        end
    end.
Proof.
  destruct message as [m|]; [|reflexivity].
  unfold _handle_error, bind, query_first. simpl.
  destruct (session d !! message_id m) as [r|] eqn:Hr; simpl; [|reflexivity].
  rewrite (mark_row _ _ _ r Hr), <- !app_assoc. reflexivity.
Qed.

Lemma handle_error_result (event : QueueErrorEvent) (message : option Message)
    (d : Db) :
  fst (handle_error event message d) =
    if refetch_finds message d then Returned (classified (error event))
    else Raised (AttributeError_NoneType "status").
Proof.
  destruct message as [m|]; [|reflexivity].
  unfold _handle_error, bind, query_first, refetch_finds. simpl.
  destruct (session d !! message_id m) as [r|] eqn:Hr; reflexivity.
Qed.

Lemma handle_error_dom (event : QueueErrorEvent) (message : option Message)
    (d : Db) :
  dom (session (snd (handle_error event message d))) = dom (session d).
Proof.
  rewrite handle_error_state. destruct message as [m|]; [|reflexivity].
  destruct (session d !! message_id m) eqn:Hr; simpl; [|reflexivity].
  apply dom_insert_lookup_L. eauto.
Qed.

Lemma handle_error_lookup (event : QueueErrorEvent) (message : option Message)
    (d : Db) (id : string) :
  session (snd (handle_error event message d)) !! id =
    match message with
    | Some m =>
        if bool_decide (message_id m = id)
        then (fun _ => error_row (described (error event))) <$> session d !! id
        else session d !! id
    | None => session d !! id
    end.
Proof.
  rewrite handle_error_state. destruct message as [m|]; [|reflexivity].
  case_bool_decide as Hid.
  - subst id. destruct (session d !! message_id m) eqn:Hr; simpl.
    + rewrite lookup_insert_eq. reflexivity.
    + rewrite Hr. reflexivity.
  - destruct (session d !! message_id m) eqn:Hr; simpl; [|reflexivity].
    rewrite lookup_insert_ne by assumption. reflexivity.
Qed.

(** When the re-fetch does not find the record, the call leaves every row
    of the session and every durable row as it was, and the query is the
    only persistence call it made. *)
Theorem handle_error_missing_record (event : QueueErrorEvent) (m : Message)
    (d : Db) :
  session d !! message_id m = None ->
  let d' := snd (handle_error event (Some m) d) in
  session d' = session d /\
  committed d' = committed d /\
  calls d' = (calls d ++ [QueryFirst (message_id m)])%list.
Proof.
  intros Hr. cbv zeta. rewrite handle_error_state, Hr. repeat split.
Qed.

(** Handling the same event for the same message a second time returns
    the same outcome and leaves the rows, pending and durable, as the
    first call left them. *)
Theorem handle_error_twice (event : QueueErrorEvent) (message : option Message)
    (d : Db) :
  let first := handle_error event message d in
  let second := handle_error event message (snd first) in
  fst second = fst first /\
  session (snd second) = session (snd first) /\
  committed (snd second) = committed (snd first).
Proof.
  cbv zeta. destruct message as [m|]; [|repeat split].
  pose proof (handle_error_state event (Some m) d) as H1.
  pose proof (handle_error_result event (Some m) d) as R1.
  remember (handle_error event (Some m) d) as first eqn:E1. clear E1.
  pose proof (handle_error_state event (Some m) (snd first)) as H2.
  pose proof (handle_error_result event (Some m) (snd first)) as R2.
  remember (handle_error event (Some m) (snd first)) as second eqn:E2. clear E2.
  rewrite R2, R1, H2. unfold refetch_finds. rewrite H1. clear.
  destruct (session d !! message_id m) as [r|] eqn:Hr; simpl.
  - rewrite lookup_insert_eq, insert_insert_eq. repeat split.
  - rewrite Hr. repeat split.
Qed.

(** Two failures handled for the same message: the record keeps the
    description of the second, and the other records are the session's
    before the two calls. *)
Theorem handle_error_last_write_wins (event1 event2 : QueueErrorEvent)
    (m : Message) (d : Db) :
  is_Some (session d !! message_id m) ->
  let d1 := snd (handle_error event1 (Some m) d) in
  let d2 := snd (handle_error event2 (Some m) d1) in
  committed d2 !! message_id m = Some (error_row (described (error event2))) /\
  forall id, id <> message_id m -> committed d2 !! id = session d !! id.
Proof.
  intros [r Hr]. cbv zeta.
  rewrite (handle_error_state event2), (handle_error_state event1), Hr. simpl.
  rewrite lookup_insert_eq. simpl. split.
  - apply lookup_insert_eq.
  - intros id Hid. rewrite !lookup_insert_ne by congruence. reflexivity.
Qed.

(** The description persisted for a failure that is wrapped (no
    authorization failure, no [InvokeError], no [ValueError]), quota
    failures included: its [description] when that is a non-empty string,
    its string form when it has no [description] or [None] and the string
    form is not empty, and the support message otherwise. *)
Theorem handle_error_generic_description (event : QueueErrorEvent) (m : Message)
    (d : Db) :
  is_InvokeAuthorizationError (error event) = false ->
  is_InvokeError (error event) || is_ValueError (error event) = false ->
  is_Some (session d !! message_id m) ->
  let text := match description (error event) with
              | Str s => s
              | IsNone | Absent => str (error event)
              end in
  fst (handle_error event (Some m) d) = Returned (Exception text) /\
  committed (snd (handle_error event (Some m) d)) !! message_id m =
    Some (error_row (if PyStr.truthy text then text else support_message)).
Proof.
  intros Ha Hv [r Hr]. cbv zeta.
  rewrite handle_error_result, handle_error_state, Hr. simpl.
  rewrite Hr. simpl.
  unfold classify. rewrite Ha, Hv. split; [reflexivity|].
  rewrite lookup_insert_eq. reflexivity.
Qed.

End Persistence.

(** ** [_handle_error] on persistence calls that can raise *)

Section FalliblePersistence.

Variable InvokeAuthorizationError : string -> PyExc.

Abbreviation classified e := (classify InvokeAuthorizationError e).
Abbreviation described e := (_error_to_desc (classify InvokeAuthorizationError e)).
Abbreviation handle_error := (Fallible._handle_error InvokeAuthorizationError).

(** The result of a call, path by path. *)
Lemma fallible_handle_error_paths (f : Fallible.Faults) (event : QueueErrorEvent)
    (message : option Message) (d : Db) :
  handle_error f event message d =
    match message with
    | None => (Returned (classified (error event)), d)
    | Some m =>
        let id := message_id m in
        match Fallible.query_fault f with
        | Some exn => (Raised exn, log_call (QueryFirst id) d)
        | None =>
            match session d !! id with
            | None =>
                (Raised (AttributeError_NoneType "status"),
                 log_call (QueryFirst id) d)
            | Some _ =>
                let desc := described (error event) in
                let rows := <[id := error_row desc]> (session d) in
                let log := (calls d ++ [QueryFirst id; SetStatus id "error";
                                        SetError id desc; Commit])%list in
                match Fallible.commit_fault f with
                | Some exn =>
                    (Raised exn,
                     {| session := rows; committed := committed d; calls := log |})
                | None =>
                    (Returned (classified (error event)),
                     {| session := rows; committed := rows; calls := log |})
                end
            end
        end
    end.
Proof.
  destruct message as [m|]; [|reflexivity].
  unfold Fallible._handle_error, bind, Fallible.query_first.
  destruct (Fallible.query_fault f); [reflexivity|]. simpl.
  destruct (session d !! message_id m) as [r|] eqn:Hr; simpl; [|reflexivity].
  unfold Fallible.commit, log_call. simpl.
  destruct (Fallible.commit_fault f); simpl;
    rewrite (mark_row _ _ _ r Hr), <- !app_assoc; reflexivity.
Qed.

(** When neither call raises, this is the [_handle_error] of the section
    on the pipeline. *)
Lemma fallible_handle_error_no_faults (event : QueueErrorEvent)
    (message : option Message) (d : Db) :
  handle_error Fallible.no_faults event message d =
  _handle_error InvokeAuthorizationError event message d.
Proof. destruct message; reflexivity. Qed.

(** C2, as the code has it. [_handle_error] returns the classified
    failure as a value when no message reference is given, and when the
    query answers, the re-fetch finds the record of the reference, and the
    commit succeeds. *)
Theorem handle_error_returns_when_calls_succeed (f : Fallible.Faults)
    (event : QueueErrorEvent) (message : option Message) (d : Db) :
  Fallible.goes_through f message d = true ->
  exists d',
    handle_error f event message d = (Returned (classified (error event)), d').
Proof.
  intros H. rewrite fallible_handle_error_paths.
  destruct message as [m|]; [|eauto]. cbv zeta. simpl in H.
  destruct (Fallible.query_fault f); [discriminate H|].
  destruct (session d !! message_id m); [|discriminate H].
  destruct (Fallible.commit_fault f); [discriminate H|]. eauto.
Qed.

(** Whether a call returns or raises, and what: without a message
    reference it returns; with one, an exception of the query leaves the
    function, else the [AttributeError] of the assignment to [status] when
    the re-fetch finds no record, else an exception of the commit; and it
    returns in the remaining case only.  What it returns is the classified
    failure, which depends on neither the message nor the database. *)
Theorem handle_error_outcome (f : Fallible.Faults) (event : QueueErrorEvent)
    (message : option Message) (d : Db) :
  fst (handle_error f event message d) =
    match message with
    | None => Returned (classified (error event))
    | Some m =>
        match Fallible.query_fault f, session d !! message_id m,
              Fallible.commit_fault f with
        | Some exn, _, _ => Raised exn
        | None, None, _ => Raised (AttributeError_NoneType "status")
        | None, Some _, Some exn => Raised exn
        | None, Some _, None => Returned (classified (error event))
        end
    end.
Proof.
  rewrite fallible_handle_error_paths.
  destruct message as [m|]; [|reflexivity]. cbv zeta.
  destruct (Fallible.query_fault f); [reflexivity|].
  destruct (session d !! message_id m); [|reflexivity].
  destruct (Fallible.commit_fault f); reflexivity.
Qed.


End FalliblePersistence.

(** ** Further properties of the pipeline driven by its caller *)

Section Runs.

Context {AppQueueManager User ModerationConfig Time : Type}.

Variable InvokeAuthorizationError : string -> PyExc.
Variable moderation_completion :
  @OutputModeration AppQueueManager ModerationConfig -> string -> bool -> string.

Abbreviation task_finished :=
  (@_handle_output_moderation_when_task_finished
     AppQueueManager User ModerationConfig Time moderation_completion).
Abbreviation run_pipeline :=
  (@run AppQueueManager User ModerationConfig Time
        InvokeAuthorizationError moderation_completion).
Abbreviation step_pipeline :=
  (@step AppQueueManager User ModerationConfig Time
         InvokeAuthorizationError moderation_completion).

Lemma step_db (w : World) (op : Op) :
  db (fst (step_pipeline w op)) =
    match op with
    | HandleError event message =>
        snd (_handle_error InvokeAuthorizationError event message (db w))
    | _ => db w
    end.
Proof.
  destruct op; simpl; try reflexivity.
  - destruct (_handle_error _ _ _ _) as [o d']. reflexivity.
  - destruct (_handle_output_moderation_when_task_finished _ _ _) as [[o p'] cs].
    reflexivity.
Qed.

Lemma step_moderation (w : World) (op : Op) :
  (_output_moderation_handler (self (fst (step_pipeline w op))),
   moderation_calls (fst (step_pipeline w op))) =
    match op, _output_moderation_handler (self w) with
    | TaskFinished completion, Some h =>
        (None,
         (moderation_calls w ++
            [StopThread h; ModerationCompletion h completion false])%list)
    | _, handler => (handler, moderation_calls w)
    end.
Proof.
  destruct op; simpl; try (destruct (_output_moderation_handler (self w)); reflexivity).
  - destruct (_handle_error _ _ _ _) as [o d']. simpl.
    destruct (_output_moderation_handler (self w)); reflexivity.
  - unfold _handle_output_moderation_when_task_finished.
    destruct (_output_moderation_handler (self w)) as [h|] eqn:E; simpl.
    + reflexivity.
    + rewrite E, app_nil_r. reflexivity.
Qed.

Lemma run_cons (w : World) (op : Op) (ops : list Op) :
  fst (run_pipeline w (op :: ops)) =
  fst (run_pipeline (fst (step_pipeline w op)) ops).
Proof.
  simpl. destruct (step_pipeline w op) as [w1 r]. simpl.
  destruct (run_pipeline w1 ops) as [w2 rs]. reflexivity.
Qed.

Lemma run_invariant (P : World -> Prop) :
  (forall w op, P w -> P (fst (step_pipeline w op))) ->
  forall ops w, P w -> P (fst (run_pipeline w ops)).
Proof.
  intros Hstep ops. induction ops as [|op ops IH]; intros w Hw; [exact Hw|].
  rewrite run_cons. apply IH, Hstep, Hw.
Qed.

Lemma run_moderation_absent (ops : list Op) (w : World) :
  _output_moderation_handler (self w) = None ->
  _output_moderation_handler (self (fst (run_pipeline w ops))) = None /\
  moderation_calls (fst (run_pipeline w ops)) = moderation_calls w.
Proof.
  revert w. induction ops as [|op ops IH]; intros w Hw; [split; [exact Hw | reflexivity]|].
  rewrite run_cons. pose proof (step_moderation w op) as Hs. rewrite Hw in Hs.
  assert (Hs' : (_output_moderation_handler (self (fst (step_pipeline w op))),
                 moderation_calls (fst (step_pipeline w op))) =
                (None, moderation_calls w)) by (destruct op; exact Hs).
  injection Hs' as Hh Hc. destruct (IH _ Hh) as [IH1 IH2].
  split; [exact IH1 | congruence].
Qed.

(** Finishing the task in any state of the pipeline: the handler is gone
    afterwards and no other attribute has changed; [None] is returned
    exactly when there was no handler, so a moderated text is returned as
    a string even when it is empty; and the moderation subsystem is called
    exactly when there was a handler. *)
Theorem task_finished_any_state (p : Pipeline) (completion : string) :
  let result := fst (fst (task_finished p completion)) in
  let p' := snd (fst (task_finished p completion)) in
  let made := snd (task_finished p completion) in
  _output_moderation_handler p' = None /\
  (result = None <-> _output_moderation_handler p = None) /\
  (made = [] <-> _output_moderation_handler p = None) /\
  _application_generate_entity p' = _application_generate_entity p /\
  _queue_manager p' = _queue_manager p /\
  _user p' = _user p /\
  _start_at p' = _start_at p /\
  _stream p' = _stream p.
Proof.
  cbv zeta. unfold _handle_output_moderation_when_task_finished.
  destruct (_output_moderation_handler p) as [h|] eqn:E; simpl.
  - repeat split; intros; discriminate.
  - rewrite E. repeat split; intros; reflexivity.
Qed.

(** Over any sequence of operations of a pipeline that holds a handler,
    the moderation subsystem is called for the first finished task only:
    its thread is stopped, then the completion of that first finish is
    moderated with [public_event=False]; completions of later finishes
    never reach it.  The handler is held until that first finish. *)
Theorem run_moderates_first_finish (w : World) (h : OutputModeration)
    (ops : list Op) :
  _output_moderation_handler (self w) = Some h ->
  let w' := fst (run_pipeline w ops) in
  moderation_calls w' =
    (moderation_calls w ++
       match first_task_finished ops with
       | Some completion =>
           [StopThread h; ModerationCompletion h completion false]
       | None => []
       end)%list /\
  _output_moderation_handler (self w') =
    match first_task_finished ops with
    | Some _ => None
    | None => Some h
    end.
Proof.
  cbv zeta. revert w. induction ops as [|op ops IH]; intros w Hw.
  - simpl. rewrite app_nil_r. split; [reflexivity | exact Hw].
  - rewrite run_cons. pose proof (step_moderation w op) as Hs. rewrite Hw in Hs.
    remember (fst (step_pipeline w op)) as w1 eqn:E1. clear E1.
    destruct op; simpl in Hs; injection Hs as Hh Hc; simpl first_task_finished;
      first [ destruct (IH _ Hh) as [IH1 IH2]; rewrite IH1, IH2, Hc;
              split; reflexivity
            | destruct (run_moderation_absent ops _ Hh) as [A1 A2];
              rewrite A1, A2, Hc; split; reflexivity ].
Qed.

(** No sequence of operations creates or deletes a message record: the
    session holds records for the same ids afterwards. *)
Theorem run_keeps_record_ids (w : World) (ops : list Op) :
  dom (session (db (fst (run_pipeline w ops)))) = dom (session (db w)).
Proof.
  apply (run_invariant (fun w' => dom (session (db w')) = dom (session (db w))));
    [|reflexivity].
  intros w1 op Hw. rewrite step_db. destruct op; try exact Hw.
  rewrite handle_error_dom. exact Hw.
Qed.

(** A record that no [_handle_error] of the sequence is given a reference
    to is left as it was. *)
Theorem run_leaves_other_records (w : World) (ops : list Op) (id : string) :
  Forall (fun op => refers_to id op = false) ops ->
  session (db (fst (run_pipeline w ops))) !! id = session (db w) !! id.
Proof.
  intros H. revert w. induction H as [|op ops Hop _ IH]; intros w; [reflexivity|].
  rewrite run_cons, IH, step_db. destruct op; try reflexivity.
  rewrite handle_error_lookup. destruct message as [m|]; [|reflexivity].
  simpl in Hop. rewrite Hop. reflexivity.
Qed.

(** The status ["error"] is never taken back: a record that has it keeps
    it over any sequence of operations. *)
Theorem run_error_status_stays (w : World) (ops : list Op) (id : string) :
  row_status <$> session (db w) !! id = Some "error" ->
  row_status <$> session (db (fst (run_pipeline w ops))) !! id = Some "error".
Proof.
  apply (run_invariant
           (fun w => row_status <$> session (db w) !! id = Some "error")).
  clear. intros w op Hw. rewrite step_db. destruct op; try exact Hw.
  rewrite handle_error_lookup. destruct message as [m|]; [|exact Hw].
  case_bool_decide; [|exact Hw].
  destruct (session (db w) !! id); [reflexivity | discriminate Hw].
Qed.

End Runs.

(** ** Further properties of the enrichment hooks *)

Section Hooks.

Import PyStr.

Lemma startswith_app_l (p s t : string) :
  startswith p s = true -> startswith p (s +:+ t) = true.
Proof.
  revert s. induction p as [|a p IH]; intros s H; [reflexivity|].
  destruct s as [|b s]; [discriminate H|]. simpl in *.
  apply andb_true_iff in H as [Hab Hp]. rewrite Hab. simpl. apply IH, Hp.
Qed.

Lemma contains_app_l (p s t : string) :
  contains p s = true -> contains p (s +:+ t) = true.
Proof.
  induction s as [|b s IH]; intros H.
  - simpl in H. rewrite orb_false_r in H. destruct p; [|discriminate H].
    destruct t; reflexivity.
  - change (String b s +:+ t) with (String b (s +:+ t)).
    cbn [contains] in *. apply orb_true_iff in H as [H | H].
    + change (String b (s +:+ t)) with (String b s +:+ t).
      rewrite (startswith_app_l _ _ t H). reflexivity.
    + rewrite (IH H). apply orb_true_r.
Qed.

Lemma contains_app_r (p s t : string) :
  contains p s = true -> contains p (t +:+ s) = true.
Proof.
  intros H. induction t as [|b t IH]; [exact H|].
  change (String b t +:+ s) with (String b (t +:+ s)).
  cbn [contains]. rewrite IH. apply orb_true_r.
Qed.

Lemma append_eq_self (s t : string) : s +:+ t = s -> t = "".
Proof.
  induction s as [|b s IH]; intros H; [exact H|].
  injection H as H. exact (IH H).
Qed.

Lemma detect_anomalies_contains (output : string) :
  _detect_anomalies output =
    if contains "suspicious" output then Some anomaly_note else None.
Proof.
  unfold _detect_anomalies. destruct (contains "suspicious" output); reflexivity.
Qed.

Lemma enrich_response_flagged (output : string) :
  contains "suspicious" output = true ->
  contains "suspicious" (_enrich_response output) = true /\
  occurrences anomaly_note (_enrich_response output) =
    S (occurrences anomaly_note output).
Proof.
  intros H. rewrite (enrich_response_suspicious output H). split.
  - apply contains_app_l, H.
  - rewrite occurrences_barrier by reflexivity.
    replace (occurrences anomaly_note
               (String newline ("Note: " +:+ anomaly_note)))
      with 1 by reflexivity.
    lia.
Qed.

(** The enriched response always starts with the response as it was
    given: enrichment only ever appends. *)
Theorem enrich_response_keeps_text (output : string) :
  startswith output (_enrich_response output) = true.
Proof.
  unfold _enrich_response. rewrite detect_anomalies_contains.
  destruct (contains "suspicious" output); simpl.
  - apply startswith_app.
  - apply startswith_refl.
Qed.

(** The response is returned unchanged exactly when it does not contain
    ["suspicious"], that is exactly when no anomaly is detected in it. *)
Theorem enrich_response_unchanged_iff (output : string) :
  (_enrich_response output = output <-> contains "suspicious" output = false) /\
  (_enrich_response output = output <-> _detect_anomalies output = None).
Proof.
  rewrite detect_anomalies_contains.
  destruct (contains "suspicious" output) eqn:H.
  - rewrite (enrich_response_suspicious output H).
    split; (split; [intros E; apply append_eq_self in E; discriminate E
                   | discriminate]).
  - unfold _enrich_response. rewrite detect_anomalies_contains, H.
    split; split; reflexivity.
Qed.

(** Enrichment does not change what the detector says: the enriched
    response is flagged exactly when the response was, so the note that
    is appended is never itself taken for an anomaly. *)
Theorem detect_anomalies_after_enrich (output : string) :
  _detect_anomalies (_enrich_response output) = _detect_anomalies output.
Proof.
  rewrite !detect_anomalies_contains.
  destruct (contains "suspicious" output) eqn:H.
  - destruct (enrich_response_flagged output H) as [-> _]. reflexivity.
  - unfold _enrich_response. rewrite detect_anomalies_contains, H, H.
    reflexivity.
Qed.

(** Enriching a flagged response [n] times appends [n] notes: every pass
    finds ["suspicious"] again and adds one more occurrence. *)
Theorem enrich_response_iterated (output : string) (n : nat) :
  contains "suspicious" output = true ->
  contains "suspicious" (Nat.iter n _enrich_response output) = true /\
  occurrences anomaly_note (Nat.iter n _enrich_response output) =
    n + occurrences anomaly_note output.
Proof.
  intros H. induction n as [|n [IH1 IH2]]; [split; [exact H | reflexivity]|].
  change (Nat.iter (S n) _enrich_response output)
    with (_enrich_response (Nat.iter n _enrich_response output)).
  destruct (enrich_response_flagged _ IH1) as [F1 F2].
  split; [exact F1|]. rewrite F2, IH2. reflexivity.
Qed.

(** Detection looks for the word anywhere: a text that embeds a flagged
    text, with anything before and after it, is flagged with the same
    fixed note. *)
Theorem detect_anomalies_embedded (before output after : string) :
  _detect_anomalies output = Some anomaly_note ->
  _detect_anomalies (before +:+ output +:+ after) = Some anomaly_note.
Proof.
  rewrite !detect_anomalies_contains. intros H.
  destruct (contains "suspicious" output) eqn:Hc; [|discriminate H].
  rewrite (contains_app_r _ _ before (contains_app_l _ _ after Hc)).
  reflexivity.
Qed.

End Hooks.

(** ** The further properties at sample inputs *)

Lemma classify_idempotent_witness :
  classify Sample.InvokeAuthorizationError
    (classify Sample.InvokeAuthorizationError Sample.auth_error) =
  classify Sample.InvokeAuthorizationError Sample.auth_error.
Proof.
  apply (classify_idempotent Sample.InvokeAuthorizationError).
  intros msg. reflexivity.
Defined.

Lemma classify_class_membership_witness :
  is_QuotaExceededError
    (classify Sample.InvokeAuthorizationError Sample.quota_error) = false /\
  is_QuotaExceededError
    (classify Sample.InvokeAuthorizationError Sample.quota_value_error) = true.
Proof.
  split.
  - apply (classify_class_membership Sample.InvokeAuthorizationError
             (fun _ => eq_refl) Sample.quota_error). reflexivity.
  - apply (classify_class_membership Sample.InvokeAuthorizationError
             (fun _ => eq_refl) Sample.quota_value_error). reflexivity.
Defined.

Lemma error_to_desc_classify_agree_witness :
  _error_to_desc (classify Sample.InvokeAuthorizationError MoreSamples.runtime_error) =
  _error_to_desc MoreSamples.runtime_error.
Proof.
  apply (error_to_desc_classify_agree Sample.InvokeAuthorizationError
           MoreSamples.runtime_error); [reflexivity|].
  right. split; [reflexivity | discriminate].
Defined.

Lemma error_to_desc_none_description_diverges_witness :
  _error_to_desc MoreSamples.none_description_error = support_message /\
  _error_to_desc
    (classify Sample.InvokeAuthorizationError MoreSamples.none_description_error) =
  "connection reset".
Proof.
  apply (error_to_desc_none_description_diverges Sample.InvokeAuthorizationError
           MoreSamples.none_description_error); try reflexivity.
  discriminate.
Defined.

Lemma handle_error_missing_record_witness :
  let d' := snd (_handle_error Sample.InvokeAuthorizationError
                   (mkQueueErrorEvent Sample.value_error) (Some Sample.message)
                   Sample.db_without_message) in
  session d' = session Sample.db_without_message /\
  committed d' = committed Sample.db_without_message /\
  calls d' = [QueryFirst "m1"].
Proof.
  apply (handle_error_missing_record Sample.InvokeAuthorizationError
           (mkQueueErrorEvent Sample.value_error) Sample.message
           Sample.db_without_message).
  reflexivity.
Defined.

Lemma handle_error_last_write_wins_witness :
  let d1 := snd (_handle_error Sample.InvokeAuthorizationError
                   (mkQueueErrorEvent Sample.value_error) (Some Sample.message)
                   MoreSamples.db_two_messages) in
  let d2 := snd (_handle_error Sample.InvokeAuthorizationError
                   (mkQueueErrorEvent MoreSamples.runtime_error)
                   (Some Sample.message) d1) in
  committed d2 !! "m1" = Some (error_row "boom") /\
  forall id, id <> "m1" ->
    committed d2 !! id = session MoreSamples.db_two_messages !! id.
Proof.
  apply (handle_error_last_write_wins Sample.InvokeAuthorizationError
           (mkQueueErrorEvent Sample.value_error)
           (mkQueueErrorEvent MoreSamples.runtime_error)
           Sample.message MoreSamples.db_two_messages).
  exists Sample.row. reflexivity.
Defined.

Lemma handle_error_generic_description_witness :
  fst (_handle_error Sample.InvokeAuthorizationError
         (mkQueueErrorEvent Sample.quota_error) (Some Sample.message)
         Sample.db_with_message) = Returned (Exception "Quota Exceeded") /\
  committed (snd (_handle_error Sample.InvokeAuthorizationError
                    (mkQueueErrorEvent Sample.quota_error) (Some Sample.message)
                    Sample.db_with_message)) !! "m1" =
    Some (error_row "Quota Exceeded").
Proof.
  apply (handle_error_generic_description Sample.InvokeAuthorizationError
           (mkQueueErrorEvent Sample.quota_error) Sample.message
           Sample.db_with_message); try reflexivity.
  exists Sample.row. reflexivity.
Defined.

Lemma run_moderates_first_finish_witness :
  let w' := fst (run Sample.InvokeAuthorizationError Sample.moderation_completion
                   (MoreSamples.world Sample.db_with_message)
                   MoreSamples.operations) in
  moderation_calls w' =
    [StopThread MoreSamples.handler;
     ModerationCompletion MoreSamples.handler "first" false] /\
  _output_moderation_handler (self w') = None.
Proof.
  apply (run_moderates_first_finish Sample.InvokeAuthorizationError
           Sample.moderation_completion
           (MoreSamples.world Sample.db_with_message) MoreSamples.handler
           MoreSamples.operations).
  reflexivity.
Defined.

Lemma run_leaves_other_records_witness :
  session (db (fst (run Sample.InvokeAuthorizationError
                      Sample.moderation_completion
                      (MoreSamples.world MoreSamples.db_two_messages)
                      MoreSamples.operations))) !! "m2" =
  Some MoreSamples.other_row.
Proof.
  apply (run_leaves_other_records Sample.InvokeAuthorizationError
           Sample.moderation_completion
           (MoreSamples.world MoreSamples.db_two_messages)
           MoreSamples.operations "m2").
  repeat constructor.
Defined.

Lemma run_error_status_stays_witness :
  row_status <$>
    session (db (fst (run Sample.InvokeAuthorizationError
                        Sample.moderation_completion
                        (MoreSamples.world MoreSamples.db_errored)
                        MoreSamples.operations))) !! "m1" = Some "error".
Proof.
  apply (run_error_status_stays Sample.InvokeAuthorizationError
           Sample.moderation_completion
           (MoreSamples.world MoreSamples.db_errored)
           MoreSamples.operations "m1").
  reflexivity.
Defined.

Lemma enrich_response_iterated_witness :
  PyStr.contains "suspicious" (Nat.iter 3 _enrich_response "suspicious") = true /\
  PyStr.occurrences anomaly_note (Nat.iter 3 _enrich_response "suspicious") = 3.
Proof. apply (enrich_response_iterated "suspicious" 3). reflexivity. Defined.

Lemma detect_anomalies_embedded_witness :
  _detect_anomalies ("This looks " +:+ "suspicious" +:+ " to me") =
  Some anomaly_note.
Proof.
  apply (detect_anomalies_embedded "This looks " "suspicious" " to me").
  reflexivity.
Defined.

(** Without a message reference nothing is committed: a change that was
    pending before the call is still pending after it. *)
Example handle_error_keeps_pending_changes :
  let d' := snd (_handle_error Sample.InvokeAuthorizationError
                   (mkQueueErrorEvent Sample.value_error) None
                   MoreSamples.db_pending) in
  session d' !! "m1" = Some (error_row "boom") /\
  committed d' !! "m1" = Some Sample.row.
Proof. split; reflexivity. Qed.

(** ** Calls that can raise, at sample inputs *)

Lemma handle_error_returns_when_calls_succeed_witness :
  exists d',
    Fallible._handle_error Sample.InvokeAuthorizationError Fallible.no_faults
      (mkQueueErrorEvent Sample.value_error) (Some Sample.message)
      Sample.db_with_message = (Returned Sample.value_error, d').
Proof.
  apply (handle_error_returns_when_calls_succeed Sample.InvokeAuthorizationError
           Fallible.no_faults (mkQueueErrorEvent Sample.value_error)
           (Some Sample.message) Sample.db_with_message).
  reflexivity.
Defined.

(** The record is found and the commit raises: the exception of the commit
    leaves [_handle_error], the assignments stay in the session, and the
    durable record is the one from before. *)
Example handle_error_commit_raises :
  let call :=
    Fallible._handle_error Sample.InvokeAuthorizationError
      FaultSamples.commit_fails (mkQueueErrorEvent Sample.value_error)
      (Some Sample.message) Sample.db_with_message in
  fst call = Raised FaultSamples.operational_error /\
  session (snd call) !! "m1" = Some (error_row "bad input") /\
  committed (snd call) !! "m1" = Some Sample.row /\
  calls (snd call) =
    [QueryFirst "m1"; SetStatus "m1" "error"; SetError "m1" "bad input"; Commit].
Proof. cbv zeta. repeat split; reflexivity. Qed.

Example handle_error_query_raises :
  let call :=
    Fallible._handle_error Sample.InvokeAuthorizationError
      FaultSamples.query_fails (mkQueueErrorEvent Sample.value_error)
      (Some Sample.message) Sample.db_with_message in
  fst call = Raised FaultSamples.operational_error /\
  session (snd call) !! "m1" = Some Sample.row /\
  calls (snd call) = [QueryFirst "m1"].
Proof. cbv zeta. repeat split; reflexivity. Qed.

(** Without a message reference no call reaches the database, whatever
    it would have raised. *)
Example handle_error_no_reference_no_fault :
  Fallible._handle_error Sample.InvokeAuthorizationError
    FaultSamples.commit_fails (mkQueueErrorEvent Sample.value_error) None
    Sample.db_with_message = (Returned Sample.value_error, Sample.db_with_message).
Proof. reflexivity. Qed.
